(** * Treasurer agent: funding policy and transaction ledger

    A shallow embedding of
    [src/disaster_management_system/agents/treasurer.py].

    Conventions of the embedding.
    - Python numbers (the amounts, scores, balances and clock readings)
      are exact rationals [Q]: the order, the clamping and the decimal
      rounding of the source are kept, the binary rounding error of
      IEEE-754 products is not.
    - A Python exception is the [Raise] constructor of [result]; a
      [try ... except Exception] block is a [match] on it.
    - [self.pending_transactions] and [self.completed_transactions] are
      finite maps from transaction ids to the stored [tx_data]; the
      in-place mutation of a stored [FundingTransaction] is an update of
      the map at its key.
    - The collaborators that live outside this file of the repository
      (the [BlockchainManager], [VerifiedEvent.from_dict], the id
      generator of [FundingTransaction], the clock) are parameters of the
      operations, gathered in the records [Gateway] and [SweepEnv]. *)

From Stdlib Require Import QArith Qround ZArith Lia Lqa.
From stdpp Require Import base option list gmap strings fin_maps.

Local Open Scope string_scope.

(** ** Numbers *)

Module Num.

(** [a < b] and [a <= b] on Python numbers, as booleans. *)
Definition ltb (a b : Q) : bool := negb (Qle_bool b a).
Definition leb (a b : Q) : bool := Qle_bool a b.

(** Python's [max(a, b)]: the first argument is kept unless the second
    is strictly greater. *)
Definition py_max (a b : Q) : Q := if ltb a b then b else a.

(** Python's [min(a, b)]: the first argument is kept unless the second
    is strictly smaller. *)
Definition py_min (a b : Q) : Q := if ltb b a then b else a.

(** Round to the nearest integer, ties to even. *)
Definition round_half_even (q : Q) : Z :=
  let f := Qfloor q in
  match Qcompare (q - inject_Z f) (1 # 2) with
  | Lt => f
  | Gt => (f + 1)%Z
  | Eq => if Z.even f then f else (f + 1)%Z
  end.

(** Python's [round(x, 6)]. *)
Definition round6 (x : Q) : Q :=
  Qmake (round_half_even (x * 1000000)) 1000000.

(** [sum(...)] over a sequence of numbers. *)
Definition sum (l : list Q) : Q := foldl Qplus 0%Q l.

End Num.

(** ** Exceptions *)

Inductive result (A : Type) : Type :=
| Ok (a : A)
| Raise (e : string).
Arguments Ok {A} a.
Arguments Raise {A} e.

Definition bind {A B} (m : result A) (k : A -> result B) : result B :=
  match m with
  | Ok a => k a
  | Raise e => Raise e
  end.

Notation "'let!' x ':=' m 'in' k" := (bind m (fun x => k))
  (at level 10, x name, m at level 100, k at level 200).

(** ** Python values read from an event *)

Inductive pyval : Type :=
| PyNum (q : Q)
| PyStr (s : string)
| PyNone.

(** Use of a value as a number in a comparison or a product: anything but
    a number raises [TypeError]. *)
Definition as_num (v : pyval) : result Q :=
  match v with
  | PyNum q => Ok q
  | PyStr _ => Raise "TypeError: unsupported operand type(s): 'str'"
  | PyNone => Raise "TypeError: unsupported operand type(s): 'NoneType'"
  end.

(** [getattr(obj, name, default)] on an attribute that may be absent. *)
Definition getattr_default (field : option pyval) (default : pyval) : pyval :=
  match field with
  | Some v => v
  | None => default
  end.

(** [obj.name] on an attribute that may be absent. *)
Definition getattr {A} (name : string) (field : option A) : result A :=
  match field with
  | Some v => Ok v
  | None => Raise ("AttributeError: object has no attribute '" ++ name ++ "'")
  end.

(** ** Data model *)

Record DisasterEvent := {
  disaster_type : option pyval
}.

Record VerifiedEvent := {
  event_id : option string;
  original_event : option DisasterEvent;
  verification_score : option pyval;
  human_impact_estimate : option pyval;
  funding_recommendation : option pyval
}.

Record Config := {
  min_funding_amount : Q;
  max_funding_amount : Q;
  funding_timeout : Q
}.

(** [config.get(..., default)] of [__init__]. *)
Definition default_config : Config :=
  {| min_funding_amount := 1 # 100;
     max_funding_amount := 2;
     funding_timeout := 300 |}.

(** ** Funding policy *)

(** The [disaster_multipliers] table with [.get(disaster_type, 1.0)]. *)
Definition disaster_factor (dt : pyval) : Q :=
  match dt with
  | PyStr s =>
      if String.eqb s "fire" then 1
      else if String.eqb s "flood" then 12 # 10
      else if String.eqb s "structural" then 11 # 10
      else if String.eqb s "casualty" then 15 # 10
      else 1
  | _ => 1
  end.

(** The product computed inside the [try] block of
    [_calculate_funding_amount], before the floor and the ceiling. *)
Definition raw_amount (cfg : Config) (ev : VerifiedEvent) : result Q :=
  let! base_amount :=
    as_num (getattr_default (funding_recommendation ev)
                            (PyNum (min_funding_amount cfg))) in
  let base_amount :=
    if Num.leb base_amount 0 then min_funding_amount cfg else base_amount in
  let! score :=
    as_num (getattr_default (verification_score ev) (PyNum 80)) in
  let verification_factor := (score / 100)%Q in
  let! human_impact :=
    as_num (getattr_default (human_impact_estimate ev) (PyNum 100)) in
  let impact_factor := Num.py_min 2 (human_impact / 1000) in
  let! oe := getattr "original_event" (original_event ev) in
  let! dt := getattr "disaster_type" (disaster_type oe) in
  Ok (base_amount * verification_factor * impact_factor * disaster_factor dt)%Q.

(** The whole [try] block: floor, ceiling, rounding. *)
Definition calculate_body (cfg : Config) (ev : VerifiedEvent) : result Q :=
  let! final_amount := raw_amount cfg ev in
  let final_amount := Num.py_max (min_funding_amount cfg) final_amount in
  let final_amount := Num.py_min (max_funding_amount cfg) final_amount in
  Ok (Num.round6 final_amount).

(** [_calculate_funding_amount]: any exception is logged and replaced by
    the minimum amount. *)
Definition _calculate_funding_amount (cfg : Config) (ev : VerifiedEvent) : Q :=
  match calculate_body cfg ev with
  | Ok a => a
  | Raise _ => min_funding_amount cfg
  end.

(** ** Transaction ledger *)

Record FundingTransaction := {
  transaction_id : string;
  ft_event_id : string;
  recipient_addresses : list string;
  amounts : list Q;
  transaction_hashes : list string;
  total_amount : Q;
  status : string;
  timestamp : Q
}.

(** One element of the list returned by [send_multiple_transactions]: a
    dictionary that holds the key ['transaction_hash'] when the transfer
    was accepted. *)
Record TxResult := {
  transaction_hash : option string
}.

(** One element of the list returned by [calculate_recipient_amounts]. *)
Record RecipientAmount := {
  address : string;
  amount : Q
}.

(** The dictionary stored under a transaction id. *)
Record TxData := {
  funding_transaction : FundingTransaction;
  transaction_results : list TxResult;
  created_at : Q
}.

Record Treasurer := {
  pending_transactions : gmap string TxData;
  completed_transactions : gmap string TxData
}.

(** The ledger after [__init__]. *)
Definition init : Treasurer :=
  {| pending_transactions := ∅; completed_transactions := ∅ |}.

(** [tx_data['funding_transaction'].status = s]. *)
Definition set_status (s : string) (d : TxData) : TxData :=
  let ft := funding_transaction d in
  {| funding_transaction :=
       {| transaction_id := transaction_id ft;
          ft_event_id := ft_event_id ft;
          recipient_addresses := recipient_addresses ft;
          amounts := amounts ft;
          transaction_hashes := transaction_hashes ft;
          total_amount := total_amount ft;
          status := s;
          timestamp := timestamp ft |};
     transaction_results := transaction_results d;
     created_at := created_at d |}.

Definition status_of (d : TxData) : string := status (funding_transaction d).

(** ** Collaborators of one message *)

(** The serialized event carried by a message. *)
Definition RawEvent := list (string * pyval).

Record Message := {
  verified_event : option RawEvent
}.

(** What the outside world answers while one message is processed (or one
    administrative call is served): the parser of the event, the
    [BlockchainManager], the id given to the new [FundingTransaction] and
    the two readings of [datetime.utcnow()]. Each call may raise. *)
Record Gateway := {
  from_dict : RawEvent -> result VerifiedEvent;
  get_balance : result Q;
  get_default_recipients : pyval -> result (list (string * Q));
  calculate_recipient_amounts :
    Q -> list (string * Q) -> result (list RecipientAmount);
  send_multiple_transactions : list RecipientAmount -> result (list TxResult);
  get_network_info : result string;
  new_transaction_id : string;
  utcnow_timestamp : Q;
  utcnow_created_at : Q
}.

(** [_get_recipients]. *)
Definition _get_recipients (gw : Gateway) (ev : VerifiedEvent)
  : result (list (string * Q)) :=
  let! oe := getattr "original_event" (original_event ev) in
  let! dt := getattr "disaster_type" (disaster_type oe) in
  get_default_recipients gw dt.

(** [r.get('transaction_hash', '')]. *)
Definition hash_or_empty (r : TxResult) : string :=
  match transaction_hash r with
  | Some h => h
  | None => ""
  end.

(** The [try] block of [distribute_funding]. The ledger is only written by
    its last statement. *)
Definition distribute_body (cfg : Config) (gw : Gateway) (ev : VerifiedEvent)
    (st : Treasurer) : result (option FundingTransaction * Treasurer) :=
  let funding_amount := _calculate_funding_amount cfg ev in
  if Num.ltb funding_amount (min_funding_amount cfg) then Ok (None, st) else
  let! balance := get_balance gw in
  if Num.ltb balance funding_amount then Ok (None, st) else
  let! recipients := _get_recipients gw ev in
  let! recipient_amounts :=
    calculate_recipient_amounts gw funding_amount recipients in
  let! results := send_multiple_transactions gw recipient_amounts in
  let! eid := getattr "event_id" (event_id ev) in
  let ft :=
    {| transaction_id := new_transaction_id gw;
       ft_event_id := eid;
       recipient_addresses := address <$> recipient_amounts;
       amounts := amount <$> recipient_amounts;
       transaction_hashes := hash_or_empty <$> results;
       total_amount := funding_amount;
       status := "pending";
       timestamp := utcnow_timestamp gw |} in
  let tx_data :=
    {| funding_transaction := ft;
       transaction_results := results;
       created_at := utcnow_created_at gw |} in
  Ok (Some ft,
      {| pending_transactions :=
           <[transaction_id ft := tx_data]> (pending_transactions st);
         completed_transactions := completed_transactions st |}).

(** [distribute_funding]: any exception is logged and answered by [None]. *)
Definition distribute_funding (cfg : Config) (gw : Gateway) (ev : VerifiedEvent)
    (st : Treasurer) : option FundingTransaction * Treasurer :=
  match distribute_body cfg gw ev st with
  | Ok r => r
  | Raise _ => (None, st)
  end.

(** The dictionaries returned by the public operations, by status tag. *)
Inductive Outcome : Type :=
| FundingInitiated (tx_id : string) (amount : Q)
| FundingFailed
| NoEventToFund
| Error (error : string)
| EmergencyStopActivated (stopped_transactions : nat) (timestamp : Q).

Definition status_tag (o : Outcome) : string :=
  match o with
  | FundingInitiated _ _ => "funding_initiated"
  | FundingFailed => "funding_failed"
  | NoEventToFund => "no_event_to_fund"
  | Error _ => "error"
  | EmergencyStopActivated _ _ => "emergency_stop_activated"
  end.

(** [process_message]. Both log lines read [verified_event.event_id]; an
    exception leaves the ledger as it is at that point. *)
Definition process_message (cfg : Config) (gw : Gateway) (message : Message)
    (st : Treasurer) : Outcome * Treasurer :=
  match verified_event message with
  | Some payload =>
      match from_dict gw payload with
      | Raise e => (Error e, st)
      | Ok ev =>
          let '(funding, st') := distribute_funding cfg gw ev st in
          match funding with
          | Some ft =>
              match getattr "event_id" (event_id ev) with
              | Ok _ =>
                  (FundingInitiated (transaction_id ft) (total_amount ft), st')
              | Raise e => (Error e, st')
              end
          | None =>
              match getattr "event_id" (event_id ev) with
              | Ok _ => (FundingFailed, st')
              | Raise e => (Error e, st')
              end
          end
      end
  | None => (NoEventToFund, st)
  end.

(** ** Reconciliation sweep *)

(** What the outside world answers during one sweep. The source calls
    [self.blockchain.get_transaction_status(tx_hash)] once for the hash at
    position [i] of the entry [tx_id]; the answer may differ from call to
    call, so it is indexed by the call. The answer is the ['status'] field
    of the reply, or an exception. [sweep_utcnow] is the clock read while
    the entry [tx_id] is checked. *)
Record SweepEnv := {
  get_transaction_status : string -> nat -> string -> result string;
  sweep_utcnow : string -> Q
}.

(** The loop over [enumerate(transaction_results)]; the result is
    [(all_confirmed, any_failed)]. *)
Fixpoint check_hashes (env : SweepEnv) (tx_id : string) (i : nat)
    (results : list TxResult) (all_confirmed : bool) : result (bool * bool) :=
  match results with
  | [] => Ok (all_confirmed, false)
  | r :: rest =>
      match transaction_hash r with
      | Some tx_hash =>
          let! st := get_transaction_status env tx_id i tx_hash in
          if String.eqb st "confirmed" then
            check_hashes env tx_id (S i) rest all_confirmed
          else if String.eqb st "failed" then
            Ok (all_confirmed, true)
          else
            check_hashes env tx_id (S i) rest false
      | None => check_hashes env tx_id (S i) rest all_confirmed
      end
  end.

(** The body of the [try] block for one entry, once the status queries
    have returned: the entry after the two status assignments, and the ids
    appended to [completed_ids]. *)
Definition judge (cfg : Config) (env : SweepEnv) (tx_id : string)
    (tx_data : TxData) (verdict : bool * bool) : TxData * list string :=
  let '(all_confirmed, any_failed) := verdict in
  let '(d1, ids1) :=
    if any_failed then (set_status "failed" tx_data, [tx_id])
    else if all_confirmed then (set_status "confirmed" tx_data, [tx_id])
    else (tx_data, []) in
  let time_elapsed := (sweep_utcnow env tx_id - created_at tx_data)%Q in
  if Num.ltb (funding_timeout cfg) time_elapsed
  then (set_status "timeout" d1, (ids1 ++ [tx_id])%list)
  else (d1, ids1).

(** One iteration of the loop over [self.pending_transactions.items()]:
    an exception of a status query is logged and the entry is left as it
    is. *)
Definition check_entry (cfg : Config) (env : SweepEnv) (tx_id : string)
    (tx_data : TxData) : TxData * list string :=
  match check_hashes env tx_id 0 (transaction_results tx_data) true with
  | Ok verdict => judge cfg env tx_id tx_data verdict
  | Raise _ => (tx_data, [])
  end.

(** One iteration of the first loop of [_check_pending_transactions], on
    the pair of the pending partition and [completed_ids]. *)
Definition check_step (cfg : Config) (env : SweepEnv)
    (acc : gmap string TxData * list string) (item : string * TxData)
  : gmap string TxData * list string :=
  let '(p, completed_ids) := acc in
  let '(tx_id, tx_data) := item in
  let '(d, ids) := check_entry cfg env tx_id tx_data in
  (<[tx_id := d]> p, (completed_ids ++ ids)%list).

(** The first loop of [_check_pending_transactions]. *)
Definition check_all (cfg : Config) (env : SweepEnv)
    (pending : gmap string TxData) : gmap string TxData * list string :=
  foldl (check_step cfg env) (pending, []) (map_to_list pending).

(** One iteration of the second loop:
    [if tx_id in pending: completed[tx_id] = pending.pop(tx_id)]. *)
Definition move_completed (st : Treasurer) (tx_id : string) : Treasurer :=
  match pending_transactions st !! tx_id with
  | Some d =>
      {| pending_transactions := delete tx_id (pending_transactions st);
         completed_transactions := <[tx_id := d]> (completed_transactions st) |}
  | None => st
  end.

(** [_check_pending_transactions]. *)
Definition _check_pending_transactions (cfg : Config) (env : SweepEnv)
    (st : Treasurer) : Treasurer :=
  let '(pending, completed_ids) :=
    check_all cfg env (pending_transactions st) in
  foldl move_completed
        {| pending_transactions := pending;
           completed_transactions := completed_transactions st |}
        completed_ids.

(** ** Administrative operations *)

(** One iteration of the loop of [emergency_stop_funding]: the entry is
    marked stopped and stored in the completed partition. *)
Definition stop_step (completed : gmap string TxData) (item : string * TxData)
  : gmap string TxData :=
  <[item.1 := set_status "stopped" item.2]> completed.

(** [emergency_stop_funding]; [now] is the clock reading of the reply. *)
Definition emergency_stop_funding (now : Q) (st : Treasurer)
  : Outcome * Treasurer :=
  let pending_count := size (pending_transactions st) in
  let completed :=
    foldl stop_step (completed_transactions st)
          (map_to_list (pending_transactions st)) in
  (EmergencyStopActivated pending_count now,
   {| pending_transactions := ∅; completed_transactions := completed |}).

Record FundingStats := {
  total_pending : nat;
  total_completed : nat;
  pending_amount_eth : Q;
  completed_amount_eth : Q;
  total_amount_eth : Q;
  status_distribution : gmap string nat;
  account_balance_eth : Q;
  network_info : string;
  last_updated : Q
}.

(** [values()] of a ledger partition. *)
Definition values (m : gmap string TxData) : list TxData :=
  snd <$> map_to_list m.

(** One iteration of the loop that counts by status:
    [if status in status_counts: status_counts[status] += 1]. *)
Definition count_status (status_counts : gmap string nat) (tx_data : TxData)
  : gmap string nat :=
  match status_counts !! status_of tx_data with
  | Some n => <[status_of tx_data := S n]> status_counts
  | None => status_counts
  end.

Definition status_counts_init : gmap string nat :=
  <["confirmed" := 0]> (<["failed" := 0]> (<["timeout" := 0]> ∅)).

(** [get_funding_stats]; the empty dictionary of the [except] branch is
    [None]. *)
Definition get_funding_stats (gw : Gateway) (st : Treasurer)
  : option FundingStats :=
  let pending_amount :=
    Num.sum ((fun d => total_amount (funding_transaction d))
               <$> values (pending_transactions st)) in
  let completed_amount :=
    Num.sum ((fun d => total_amount (funding_transaction d))
               <$> values (completed_transactions st)) in
  let status_counts :=
    foldl count_status status_counts_init
          (values (completed_transactions st)) in
  match get_network_info gw with
  | Raise _ => None
  | Ok info =>
      match get_balance gw with
      | Raise _ => None
      | Ok balance =>
          Some {| total_pending := size (pending_transactions st);
                  total_completed := size (completed_transactions st);
                  pending_amount_eth := pending_amount;
                  completed_amount_eth := completed_amount;
                  total_amount_eth := (pending_amount + completed_amount)%Q;
                  status_distribution := status_counts;
                  account_balance_eth := balance;
                  network_info := info;
                  last_updated := utcnow_timestamp gw |}
      end
  end.

(** ** Runs of the agent *)

(** Modelled from the spec: the id generator of [FundingTransaction]
    (shared/models.py) is not among the sources; the data model says of
    [transaction_id] "generated at creation, unique, never reused". The id
    handed to a new transaction is therefore none of the ids recorded so
    far. *)
Definition fresh_id (gw : Gateway) (ids : gset string) : Prop :=
  new_transaction_id gw ∉ ids.

(** The transaction id recorded by a call of [distribute_funding]. *)
Definition recorded (funding : option FundingTransaction) : gset string :=
  match funding with
  | Some ft => {[transaction_id ft]}
  | None => ∅
  end.

(** The transaction id reported by an outcome. *)
Definition issued (o : Outcome) : gset string :=
  match o with
  | FundingInitiated tx_id _ => {[tx_id]}
  | _ => ∅
  end.

(** [reachable cfg st ids]: the ledger [st] is the result of a run of
    complete operations from the empty ledger, and [ids] are the
    transaction ids recorded along the run. [distribute_funding] is an
    entry point of its own (the web layer calls it directly). *)
Inductive reachable (cfg : Config) : Treasurer -> gset string -> Prop :=
| reach_init : reachable cfg init ∅
| reach_message gw message st ids :
    reachable cfg st ids ->
    fresh_id gw ids ->
    reachable cfg (process_message cfg gw message st).2
              (issued (process_message cfg gw message st).1 ∪ ids)
| reach_distribute gw ev st ids :
    reachable cfg st ids ->
    fresh_id gw ids ->
    reachable cfg (distribute_funding cfg gw ev st).2
              (recorded (distribute_funding cfg gw ev st).1 ∪ ids)
| reach_sweep env st ids :
    reachable cfg st ids ->
    reachable cfg (_check_pending_transactions cfg env st) ids
| reach_stop now st ids :
    reachable cfg st ids ->
    reachable cfg (emergency_stop_funding now st).2 ids.

(** ** Vocabulary of the statements *)

(** Number of entries of a list whose status is [s]. *)
Definition count_in (s : string) (l : list TxData) : nat :=
  length (filter (fun d => status_of d = s) l).

(** Number of entries of a partition whose status is [s]. *)
Definition count_with_status (s : string) (m : gmap string TxData) : nat :=
  count_in s (values m).

(** The dictionary [{'confirmed': c, 'failed': f, 'timeout': t}]. *)
Definition histogram (c f t : nat) : gmap string nat :=
  <["confirmed" := c]> (<["failed" := f]> (<["timeout" := t]> ∅)).

(** The statuses a completed entry can have. *)
Definition terminal (s : string) : Prop :=
  s = "confirmed" \/ s = "failed" \/ s = "timeout" \/ s = "stopped".

(** The two partitions share no id and hold exactly the ids [ids]. *)
Definition partition_inv (st : Treasurer) (ids : gset string) : Prop :=
  dom (pending_transactions st) ## dom (completed_transactions st) /\
  dom (pending_transactions st) ∪ dom (completed_transactions st) = ids.

(** Every entry of the completed partition has a terminal status. *)
Definition completed_terminal (st : Treasurer) : Prop :=
  forall tx_id d,
    completed_transactions st !! tx_id = Some d -> terminal (status_of d).

(** Sum of the counts of a histogram. *)
Definition histogram_total (h : gmap string nat) : nat :=
  map_fold (fun _ n acc => n + acc) 0 h.

(** The entry has left the pending partition for the completed one. *)
Definition moved_to_completed (st : Treasurer) (tx_id : string) (d : TxData)
  : Prop :=
  pending_transactions st !! tx_id = None /\
  completed_transactions st !! tx_id = Some d.

(** The entry [tx_id] is where it was and as it was. *)
Definition left_pending (st st' : Treasurer) (tx_id : string) (d : TxData)
  : Prop :=
  pending_transactions st' !! tx_id = Some d /\
  completed_transactions st' !! tx_id = completed_transactions st !! tx_id.

(** What the sweep does to an entry whose status queries returned
    [verdict]. *)
Definition processed_normally (cfg : Config) (env : SweepEnv)
    (st st' : Treasurer) (tx_id : string) (d : TxData) (verdict : bool * bool)
  : Prop :=
  match judge cfg env tx_id d verdict with
  | (d', []) => left_pending st st' tx_id d'
  | (d', _ :: _) => moved_to_completed st' tx_id d'
  end.

(** The event with one attribute replaced (or removed). *)
Definition with_funding_recommendation (v : option pyval) (ev : VerifiedEvent)
  : VerifiedEvent :=
  {| event_id := event_id ev;
     original_event := original_event ev;
     verification_score := verification_score ev;
     human_impact_estimate := human_impact_estimate ev;
     funding_recommendation := v |}.

Definition with_verification_score (v : option pyval) (ev : VerifiedEvent)
  : VerifiedEvent :=
  {| event_id := event_id ev;
     original_event := original_event ev;
     verification_score := v;
     human_impact_estimate := human_impact_estimate ev;
     funding_recommendation := funding_recommendation ev |}.

Definition with_human_impact_estimate (v : option pyval) (ev : VerifiedEvent)
  : VerifiedEvent :=
  {| event_id := event_id ev;
     original_event := original_event ev;
     verification_score := verification_score ev;
     human_impact_estimate := v;
     funding_recommendation := funding_recommendation ev |}.

(** The gateway accepts the funding of [ev]: the balance covers [a], and
    the recipient table, the split and the submission all return. *)
Definition accepts (gw : Gateway) (ev : VerifiedEvent) (a : Q)
    (results : list TxResult) : Prop :=
  exists balance recipients recipient_amounts,
    get_balance gw = Ok balance /\ (a <= balance)%Q /\
    _get_recipients gw ev = Ok recipients /\
    calculate_recipient_amounts gw a recipients = Ok recipient_amounts /\
    send_multiple_transactions gw recipient_amounts = Ok results.

(** ** Sample data *)

Module Sample.

Definition event (fr score impact : Q) (dt : string) : VerifiedEvent :=
  {| event_id := Some "evt-1";
     original_event := Some {| disaster_type := Some (PyStr dt) |};
     verification_score := Some (PyNum score);
     human_impact_estimate := Some (PyNum impact);
     funding_recommendation := Some (PyNum fr) |}.

(** funding_recommendation = 0, score 80, impact 100, fire. *)
Definition fire_event : VerifiedEvent := event 0 80 100 "fire".

(** funding_recommendation = 0.01, score 100, impact 2000, casualty. *)
Definition casualty_event : VerifiedEvent :=
  event (1 # 100) 100 2000 "casualty".

(** An event whose recommendation is not a number. *)
Definition malformed_event : VerifiedEvent :=
  with_funding_recommendation (Some (PyStr "n/a")) fire_event.

(** min = 0.000001, max = 0.000005 (the configuration of the web
    layer). *)
Definition small_config : Config :=
  {| min_funding_amount := 1 # 1000000;
     max_funding_amount := 5 # 1000000;
     funding_timeout := 300 |}.

(** min = 0.000001, max = 0.0000056. *)
Definition fine_config : Config :=
  {| min_funding_amount := 1 # 1000000;
     max_funding_amount := 56 # 10000000;
     funding_timeout := 300 |}.

(** The amount of each recipient is its weight's share of [a]. *)
Definition split (a : Q) (rs : list (string * Q)) : list RecipientAmount :=
  (fun r => {| address := r.1; amount := (a * r.2)%Q |}) <$> rs.

(** A gateway with balance 1 that accepts every transfer; the parser
    returns [ev] and the new transaction gets the id [tx_id]. *)
Definition gateway (ev : VerifiedEvent) (tx_id : string) : Gateway :=
  {| from_dict := fun _ => Ok ev;
     get_balance := Ok 1%Q;
     get_default_recipients :=
       fun _ => Ok [("0xA1", 1 # 2); ("0xB2", 1 # 2)]%Q;
     calculate_recipient_amounts := fun a rs => Ok (split a rs);
     send_multiple_transactions :=
       fun ras =>
         Ok ((fun r => {| transaction_hash := Some ("h-" ++ address r) |})
               <$> ras);
     get_network_info := Ok "sepolia";
     new_transaction_id := tx_id;
     utcnow_timestamp := 0;
     utcnow_created_at := 0 |}.

(** The same gateway, but the second transfer is not accepted: its
    result carries no transaction hash. *)
Definition partial_gateway (ev : VerifiedEvent) (tx_id : string) : Gateway :=
  {| from_dict := fun _ => Ok ev;
     get_balance := Ok 1%Q;
     get_default_recipients :=
       fun _ => Ok [("0xA1", 1 # 2); ("0xB2", 1 # 2)]%Q;
     calculate_recipient_amounts := fun a rs => Ok (split a rs);
     send_multiple_transactions :=
       fun _ => Ok [ {| transaction_hash := Some "h-0xA1" |};
                     {| transaction_hash := None |} ];
     get_network_info := Ok "sepolia";
     new_transaction_id := tx_id;
     utcnow_timestamp := 0;
     utcnow_created_at := 0 |}.

(** The same gateway, but the balance query fails. *)
Definition offline_gateway (ev : VerifiedEvent) (tx_id : string) : Gateway :=
  {| from_dict := fun _ => Ok ev;
     get_balance := Raise "ConnectionError";
     get_default_recipients :=
       fun _ => Ok [("0xA1", 1 # 2); ("0xB2", 1 # 2)]%Q;
     calculate_recipient_amounts := fun a rs => Ok (split a rs);
     send_multiple_transactions := fun _ => Ok [];
     get_network_info := Ok "sepolia";
     new_transaction_id := tx_id;
     utcnow_timestamp := 0;
     utcnow_created_at := 0 |}.

(** The same gateway, but the payload of the message does not parse. *)
Definition garbled_gateway (tx_id : string) : Gateway :=
  {| from_dict := fun _ => Raise "KeyError: 'event_id'";
     get_balance := Ok 1%Q;
     get_default_recipients :=
       fun _ => Ok [("0xA1", 1 # 2); ("0xB2", 1 # 2)]%Q;
     calculate_recipient_amounts := fun a rs => Ok (split a rs);
     send_multiple_transactions := fun _ => Ok [];
     get_network_info := Ok "sepolia";
     new_transaction_id := tx_id;
     utcnow_timestamp := 0;
     utcnow_created_at := 0 |}.

Definition message : Message := {| verified_event := Some [] |}.

(** A sweep at time [now] in which every status query answers [reply]. *)
Definition sweep_env (reply : result string) (now : Q) : SweepEnv :=
  {| get_transaction_status := fun _ _ _ => reply;
     sweep_utcnow := fun _ => now |}.

(** A sweep at time [now] in which the queries made for the entry [bad]
    fail and all others answer "confirmed". *)
Definition faulty_env (bad : string) (now : Q) : SweepEnv :=
  {| get_transaction_status :=
       fun tx_id _ _ =>
         if String.eqb tx_id bad then Raise "TimeoutError" else Ok "confirmed";
     sweep_utcnow := fun _ => now |}.

(** The ledger after one funded fire event. *)
Definition one_pending : Treasurer :=
  (process_message default_config (gateway fire_event "tx-1") message init).2.

(** The ledger after two funded fire events. *)
Definition two_pending : Treasurer :=
  (process_message default_config (gateway fire_event "tx-2") message
                   one_pending).2.

(** The ledger after one fire event whose second transfer was not
    accepted. *)
Definition one_partial : Treasurer :=
  (process_message default_config (partial_gateway fire_event "tx-1")
                   message init).2.

(** The ledger after one funded fire event and an emergency stop. *)
Definition one_stopped : Treasurer :=
  (emergency_stop_funding 5 one_pending).2.

End Sample.

(** * Properties *)

#[local] Set Warnings "-clear-no-such-hyp".

(** ** Comparison, clamping and rounding *)

Module NumFacts.
Import Num.

Lemma ltb_lt a b : ltb a b = true <-> (a < b)%Q.
Proof.
  unfold ltb. rewrite negb_true_iff. split.
  - intros H. apply Qnot_le_lt. intros Hle. apply Qle_bool_iff in Hle. congruence.
  - intros H. destruct (Qle_bool b a) eqn:E; [|reflexivity].
    apply Qle_bool_iff in E. exfalso. exact (Qlt_not_le _ _ H E).
Qed.

Lemma ltb_ge a b : ltb a b = false <-> (b <= a)%Q.
Proof.
  unfold ltb. rewrite negb_false_iff. apply Qle_bool_iff.
Qed.

Lemma ltb_irrefl a : ltb a a = false.
Proof. apply ltb_ge, Qle_refl. Qed.

Lemma leb_le a b : leb a b = true <-> (a <= b)%Q.
Proof. apply Qle_bool_iff. Qed.

Lemma round_half_even_comp x y : (x == y)%Q -> round_half_even x = round_half_even y.
Proof.
  intros H. unfold round_half_even.
  rewrite (Qfloor_comp _ _ H).
  assert (Hc : ((x - inject_Z (Qfloor y)) ?= 1 # 2)%Q = ((y - inject_Z (Qfloor y)) ?= 1 # 2)%Q)
    by (now rewrite H).
  now rewrite Hc.
Qed.

Lemma round6_comp x y : (x == y)%Q -> round6 x = round6 y.
Proof.
  intros H. unfold round6. f_equal. apply round_half_even_comp. now rewrite H.
Qed.

Lemma py_max_below lo x : (x < lo)%Q -> py_max lo x = lo.
Proof.
  intros H. unfold py_max.
  destruct (ltb lo x) eqn:E; [|reflexivity].
  apply ltb_lt in E. exfalso. exact (Qlt_irrefl _ (Qlt_trans _ _ _ H E)).
Qed.

Lemma py_min_above hi x : (x <= hi)%Q -> (py_min hi x == x)%Q.
Proof.
  intros H. unfold py_min.
  destruct (ltb x hi) eqn:E; [reflexivity|].
  apply ltb_ge in E. now apply Qle_antisym.
Qed.

Lemma py_min_le_l hi x : (py_min hi x <= hi)%Q.
Proof.
  unfold py_min. destruct (ltb x hi) eqn:E.
  - apply ltb_lt in E. now apply Qlt_le_weak.
  - apply Qle_refl.
Qed.

Lemma py_max_ge_l lo x : (lo <= py_max lo x)%Q.
Proof.
  unfold py_max. destruct (ltb lo x) eqn:E.
  - apply ltb_lt in E. now apply Qlt_le_weak.
  - apply Qle_refl.
Qed.
Lemma round_half_even_bounds q :
  (Qfloor q <= round_half_even q <= Qfloor q + 1)%Z.
Proof.
  unfold round_half_even.
  destruct (q - inject_Z (Qfloor q) ?= 1 # 2)%Q; [destruct (Z.even _)| |]; lia.
Qed.

Lemma round_half_even_mono x y :
  (x <= y)%Q -> (round_half_even x <= round_half_even y)%Z.
Proof.
  intros Hle.
  pose proof (Qfloor_resp_le _ _ Hle) as Hf.
  destruct (Z.eq_dec (Qfloor x) (Qfloor y)) as [E|NE].
  - unfold round_half_even. rewrite E.
    destruct (x - inject_Z (Qfloor y) ?= 1 # 2)%Q eqn:Ex;
      destruct (y - inject_Z (Qfloor y) ?= 1 # 2)%Q eqn:Ey;
      try (destruct (Z.even (Qfloor y))); try lia; exfalso;
      (apply Qeq_alt in Ex || apply Qlt_alt in Ex || apply Qgt_alt in Ex);
      (apply Qeq_alt in Ey || apply Qlt_alt in Ey || apply Qgt_alt in Ey); lra.
  - pose proof (round_half_even_bounds x). pose proof (round_half_even_bounds y).
    lia.
Qed.

Lemma round6_mono x y : (x <= y)%Q -> (round6 x <= round6 y)%Q.
Proof.
  intros Hle. unfold round6, Qle. simpl.
  apply Z.mul_le_mono_nonneg_r; [lia|].
  apply round_half_even_mono. apply Qmult_le_compat_r; [exact Hle|discriminate].
Qed.
End NumFacts.

(** ** The sweep, entry by entry *)

Section Sweep.
Variables (cfg : Config) (env : SweepEnv).

Local Abbreviation check_step := (check_step cfg env).

Lemma judge_ids tx_id d v x :
  x ∈ (judge cfg env tx_id d v).2 -> x = tx_id.
Proof.
  unfold judge. destruct v as [ac af].
  destruct af, ac, (Num.ltb _ _); simpl;
    rewrite ?elem_of_cons, ?elem_of_nil; tauto.
Qed.

Lemma check_entry_ids tx_id d x :
  x ∈ (check_entry cfg env tx_id d).2 -> x = tx_id.
Proof.
  unfold check_entry. destruct (check_hashes _ _ _ _ _); simpl.
  - apply judge_ids.
  - by intros ?%elem_of_nil.
Qed.

Lemma check_fold_lookup (l : list (string * TxData)) p ids :
  NoDup l.*1 ->
  forall k,
    (foldl check_step (p, ids) l).1 !! k =
      match (list_to_map l : gmap string TxData) !! k with
      | Some d => Some (check_entry cfg env k d).1
      | None => p !! k
      end.
Proof.
  revert p ids. induction l as [|[k0 d0] l IH]; intros p ids Hnd k; [done|].
  apply NoDup_cons in Hnd as [Hk0 Hnd]. simpl.
  destruct (check_entry cfg env k0 d0) as [d0' ids0] eqn:E.
  rewrite IH by done.
  assert (Hnone : (list_to_map l : gmap string TxData) !! k0 = None)
    by (by apply not_elem_of_list_to_map_1).
  destruct (decide (k = k0)) as [->|Hne].
  - rewrite Hnone, !lookup_insert_eq, E. done.
  - rewrite !lookup_insert_ne by done. done.
Qed.

Lemma check_fold_ids (l : list (string * TxData)) p ids :
  forall k,
    k ∈ (foldl check_step (p, ids) l).2 <->
    k ∈ ids \/ exists d, (k, d) ∈ l /\ (check_entry cfg env k d).2 ≠ [].
Proof.
  revert p ids. induction l as [|[k0 d0] l IH]; intros p ids k; simpl.
  - split; [by left|]. intros [?|(d & Hd & _)]; [done|]. by apply elem_of_nil in Hd.
  - destruct (check_entry cfg env k0 d0) as [d0' ids0] eqn:E.
    rewrite IH, elem_of_app. split.
    + intros [[?|Hin]|(d & Hd & Hne)].
      * by left.
      * right. exists d0.
        assert (k = k0) as -> by (apply (check_entry_ids k0 d0); by rewrite E).
        split; [apply list_elem_of_here|]. rewrite E. simpl. intros ->. by apply elem_of_nil in Hin.
      * right. exists d. split; [by apply list_elem_of_further|done].
    + intros [?|(d & Hd & Hne)]; [by left; left|].
      apply elem_of_cons in Hd as [Heq|Hd].
      * inversion Heq; subst. left; right. rewrite E in Hne. simpl in Hne.
        destruct ids0 as [|x ids0]; [done|].
        assert (x = k0) as -> by (apply (check_entry_ids k0 d0); rewrite E; simpl; apply list_elem_of_here).
        apply list_elem_of_here.
      * right. exists d. done.
Qed.

Lemma check_all_lookup (pending : gmap string TxData) k :
  (check_all cfg env pending).1 !! k =
    (fun d => (check_entry cfg env k d).1) <$> pending !! k.
Proof.
  unfold check_all; rewrite check_fold_lookup by apply NoDup_fst_map_to_list.
  rewrite list_to_map_to_list. by destruct (pending !! k).
Qed.

Lemma check_all_ids (pending : gmap string TxData) k :
  k ∈ (check_all cfg env pending).2 <->
  exists d, pending !! k = Some d /\ (check_entry cfg env k d).2 ≠ [].
Proof.
  unfold check_all; rewrite check_fold_ids. split.
  - intros [H|(d & Hd & Hne)]; [by apply elem_of_nil in H|].
    exists d. split; [by apply elem_of_map_to_list|done].
  - intros (d & Hd & Hne). right. exists d. split; [by apply elem_of_map_to_list|done].
Qed.

Lemma move_fold_lookup (ids : list string) st k :
  let st' := foldl move_completed st ids in
  pending_transactions st' !! k =
    (if decide (k ∈ ids) then None else pending_transactions st !! k) /\
  completed_transactions st' !! k =
    (if decide (k ∈ ids)
     then match pending_transactions st !! k with
          | Some d => Some d
          | None => completed_transactions st !! k
          end
     else completed_transactions st !! k).
Proof.
  revert st. induction ids as [|i ids IH]; intros st; simpl.
  - done.
  - destruct (IH (move_completed st i)) as [-> ->]. clear IH.
    assert (Hcons : k ∈ i :: ids <-> k = i \/ k ∈ ids) by apply elem_of_cons.
    unfold move_completed.
    destruct (decide (k ∈ i :: ids)) as [Hin|Hnin];
      destruct (decide (k ∈ ids)) as [Hin'|Hnin'];
      destruct (pending_transactions st !! i) as [d|] eqn:E; simpl;
      destruct (decide (k = i)) as [->|Hne];
      rewrite ?E, ?lookup_delete_eq, ?lookup_insert_eq;
      rewrite ?lookup_delete_ne, ?lookup_insert_ne by done;
      rewrite ?E; try done; tauto.
Qed.

(** The sweep, entry by entry. *)
Lemma sweep_lookup st k :
  let st' := _check_pending_transactions cfg env st in
  match pending_transactions st !! k with
  | Some d =>
      let '(d', ids) := check_entry cfg env k d in
      match ids with
      | [] => pending_transactions st' !! k = Some d' /\
              completed_transactions st' !! k = completed_transactions st !! k
      | _ :: _ => pending_transactions st' !! k = None /\
                  completed_transactions st' !! k = Some d'
      end
  | None => pending_transactions st' !! k = None /\
            completed_transactions st' !! k = completed_transactions st !! k
  end.
Proof.
  simpl. unfold _check_pending_transactions.
  pose proof (check_all_lookup (pending_transactions st) k) as Hl.
  pose proof (check_all_ids (pending_transactions st) k) as Hi.
  destruct (check_all cfg env (pending_transactions st)) as [p ids]. simpl in Hl, Hi.
  destruct (move_fold_lookup ids
              {| pending_transactions := p;
                 completed_transactions := completed_transactions st |} k) as [Hp Hc].
  rewrite Hp, Hc. simpl. clear Hp Hc. rewrite Hl.
  destruct (pending_transactions st !! k) as [d|] eqn:E; simpl.
  - destruct (check_entry cfg env k d) as [d' ids0] eqn:Ee. simpl.
    destruct (decide (k ∈ ids)) as [Hin|Hnin]; destruct ids0 as [|x ids0]; try done.
    + apply Hi in Hin as (d2 & Hd2 & Hne). inversion Hd2; subst.
      rewrite Ee in Hne. done.
    + exfalso. apply Hnin, Hi. exists d. rewrite Ee. done.
  - destruct (decide (k ∈ ids)) as [Hin|Hnin]; [|done].
    apply Hi in Hin as (d2 & Hd2 & _). done.
Qed.
End Sweep.

(** ** Emergency stop and funding, as map operations *)

Lemma stop_fold (l : list (string * TxData)) (c : gmap string TxData) :
  NoDup l.*1 ->
  foldl stop_step c l = (set_status "stopped" <$> list_to_map l) ∪ c.
Proof.
  revert c. induction l as [|[k d] l IH]; intros c Hnd.
  - simpl. by rewrite fmap_empty, (left_id_L ∅ (∪)).
  - apply NoDup_cons in Hnd as [Hk Hnd]. simpl. rewrite IH by done.
    unfold stop_step. simpl. rewrite fmap_insert, <- insert_union_l.
    symmetry. apply insert_union_r. rewrite lookup_fmap.
    by rewrite (not_elem_of_list_to_map_1 _ _ Hk).
Qed.

Lemma emergency_stop_completed now st :
  completed_transactions (emergency_stop_funding now st).2 =
    (set_status "stopped" <$> pending_transactions st) ∪ completed_transactions st.
Proof.
  unfold emergency_stop_funding. simpl.
  rewrite stop_fold by apply NoDup_fst_map_to_list.
  by rewrite list_to_map_to_list.
Qed.

(** A call of [distribute_funding] either leaves the ledger alone and
    returns nothing, or adds one complete pending entry under the new
    id. *)
Lemma distribute_funding_cases cfg gw ev st :
  distribute_funding cfg gw ev st = (None, st) \/
  exists ft d,
    distribute_funding cfg gw ev st =
      (Some ft,
       {| pending_transactions :=
            <[new_transaction_id gw := d]> (pending_transactions st);
          completed_transactions := completed_transactions st |}) /\
    transaction_id ft = new_transaction_id gw /\
    funding_transaction d = ft /\
    status ft = "pending" /\
    total_amount ft = _calculate_funding_amount cfg ev /\
    is_Some (event_id ev).
Proof.
  unfold distribute_funding, distribute_body.
  destruct (Num.ltb _ (min_funding_amount cfg)); [by left|].
  destruct (get_balance gw) as [balance|]; simpl; [|by left].
  destruct (Num.ltb balance _); [by left|].
  destruct (_get_recipients gw ev) as [recipients|]; simpl; [|by left].
  destruct (calculate_recipient_amounts gw _ recipients) as [ras|]; simpl; [|by left].
  destruct (send_multiple_transactions gw ras) as [results|]; simpl; [|by left].
  destruct (event_id ev) as [eid|]; simpl; [|by left].
  right. eexists _, _. split; [reflexivity|]. simpl. eauto.
Qed.

(** [process_message] writes the ledger exactly when it reports
    [funding_initiated]. *)
Lemma process_message_cases cfg gw message st :
  (process_message cfg gw message st).2 = st /\
  issued (process_message cfg gw message st).1 = ∅ \/
  exists ft d,
    process_message cfg gw message st =
      (FundingInitiated (transaction_id ft) (total_amount ft),
       {| pending_transactions :=
            <[new_transaction_id gw := d]> (pending_transactions st);
          completed_transactions := completed_transactions st |}) /\
    transaction_id ft = new_transaction_id gw /\
    funding_transaction d = ft /\
    status ft = "pending".
Proof.
  unfold process_message.
  destruct (verified_event message) as [payload|]; [|by left].
  destruct (from_dict gw payload) as [ev|]; [|by left].
  destruct (distribute_funding_cases cfg gw ev st) as [->|(ft & d & -> & Hid & Hd & Hs & _ & [eid He])].
  - left. by destruct (getattr "event_id" (event_id ev)).
  - right. rewrite He. simpl. eauto 10.
Qed.

(** ** The partition invariant *)

Lemma partition_inv_insert st ids tx_id d :
  partition_inv st ids -> tx_id ∉ ids ->
  partition_inv
    {| pending_transactions := <[tx_id := d]> (pending_transactions st);
       completed_transactions := completed_transactions st |}
    ({[tx_id]} ∪ ids).
Proof.
  intros [Hdisj Hdom] Hfresh. unfold partition_inv. simpl.
  rewrite dom_insert_L. subst ids. split; set_solver.
Qed.

Lemma sweep_dom_pending cfg env st k :
  k ∈ dom (pending_transactions (_check_pending_transactions cfg env st)) ->
  k ∈ dom (pending_transactions st) /\
  (k ∈ dom (completed_transactions (_check_pending_transactions cfg env st)) ->
   k ∈ dom (completed_transactions st)).
Proof.
  rewrite !elem_of_dom. pose proof (sweep_lookup cfg env st k) as H. simpl in H.
  destruct (pending_transactions st !! k) as [d|].
  - destruct (check_entry cfg env k d) as [d' [|x ids]]; destruct H as [-> ->].
    + intros _. split; [by eexists|done].
    + by intros [? ?].
  - destruct H as [-> ->]. by intros [? ?].
Qed.

Lemma sweep_dom_union cfg env st k :
  k ∈ dom (pending_transactions (_check_pending_transactions cfg env st)) ∪
      dom (completed_transactions (_check_pending_transactions cfg env st)) <->
  k ∈ dom (pending_transactions st) ∪ dom (completed_transactions st).
Proof.
  rewrite !elem_of_union, !elem_of_dom.
  pose proof (sweep_lookup cfg env st k) as H. simpl in H.
  destruct (pending_transactions st !! k) as [d|].
  - destruct (check_entry cfg env k d) as [d' [|x ids]]; destruct H as [-> ->].
    + split; intros _; left; by eexists.
    + split; intros _; [left|right]; by eexists.
  - destruct H as [-> ->]. done.
Qed.

Lemma partition_inv_sweep cfg env st ids :
  partition_inv st ids ->
  partition_inv (_check_pending_transactions cfg env st) ids.
Proof.
  intros [Hdisj Hdom]. split.
  - intros k Hp Hc. destruct (sweep_dom_pending cfg env st k Hp) as [Hp0 Hc0].
    apply (Hdisj k Hp0 (Hc0 Hc)).
  - rewrite <- Hdom. apply set_eq. intros k. apply sweep_dom_union.
Qed.

Lemma partition_inv_stop now st ids :
  partition_inv st ids ->
  partition_inv (emergency_stop_funding now st).2 ids.
Proof.
  intros [Hdisj Hdom]. unfold partition_inv.
  rewrite emergency_stop_completed. simpl.
  rewrite dom_empty_L, dom_union_L, dom_fmap_L. split; [set_solver|].
  rewrite <- Hdom. set_solver.
Qed.

Lemma reachable_partition_inv cfg st ids :
  reachable cfg st ids -> partition_inv st ids.
Proof.
  induction 1 as [|gw message st ids _ IH Hfresh|gw ev st ids _ IH Hfresh
                  |env st ids _ IH|now st ids _ IH].
  - unfold partition_inv. simpl. rewrite !dom_empty_L. split; set_solver.
  - destruct (process_message_cases cfg gw message st)
      as [[-> ->]|(ft & d & -> & Hid & _)].
    + by rewrite (left_id_L ∅ (∪)).
    + simpl. rewrite Hid. by apply partition_inv_insert.
  - destruct (distribute_funding_cases cfg gw ev st)
      as [->|(ft & d & -> & Hid & _)].
    + simpl. by rewrite (left_id_L ∅ (∪)).
    + simpl. rewrite Hid. by apply partition_inv_insert.
  - by apply partition_inv_sweep.
  - by apply partition_inv_stop.
Qed.

(** ** Claims about the reconciliation sweep *)

Lemma judge_timeout cfg env tx_id d verdict :
  (funding_timeout cfg < sweep_utcnow env tx_id - created_at d)%Q ->
  exists ids, judge cfg env tx_id d verdict = (set_status "timeout" d, tx_id :: ids).
Proof.
  intros Hlate. apply NumFacts.ltb_lt in Hlate.
  unfold judge. destruct verdict as [all_confirmed any_failed].
  destruct any_failed, all_confirmed; simpl; rewrite Hlate; eauto.
Qed.

(** C3, amended: when the status queries of a pending entry all return and
    the time elapsed since [created_at] exceeds the funding timeout, the
    sweep moves the entry to the completed partition with status
    [timeout], whatever the queries answered (confirmed, failed or still
    pending). *)
Theorem sweep_timeout_overrides cfg env st tx_id d verdict :
  pending_transactions st !! tx_id = Some d ->
  check_hashes env tx_id 0 (transaction_results d) true = Ok verdict ->
  (funding_timeout cfg < sweep_utcnow env tx_id - created_at d)%Q ->
  moved_to_completed (_check_pending_transactions cfg env st) tx_id
                     (set_status "timeout" d) /\
  status_of (set_status "timeout" d) = "timeout".
Proof.
  intros Hd Hv Hlate. split; [|reflexivity].
  pose proof (sweep_lookup cfg env st tx_id) as H. simpl in H.
  rewrite Hd in H. unfold check_entry in H. rewrite Hv in H.
  destruct (judge_timeout cfg env tx_id d verdict Hlate) as [ids Hj].
  cbv beta iota in H. rewrite Hj in H. exact H.
Qed.

(** C3, as stated, fails: the entry [tx-1] is pending, more than 300
    seconds have elapsed, and the sweep leaves it pending because its
    status query raised. *)
Lemma timeout_skipped_on_fault :
  (created_at <$> pending_transactions Sample.one_pending !! "tx-1") = Some 0%Q /\
  (funding_timeout default_config
     < sweep_utcnow (Sample.faulty_env "tx-1" 1000) "tx-1" - 0)%Q /\
  (status_of <$>
     pending_transactions
       (_check_pending_transactions default_config
          (Sample.faulty_env "tx-1" 1000) Sample.one_pending) !! "tx-1")
  = Some "pending" /\
  completed_transactions
    (_check_pending_transactions default_config
       (Sample.faulty_env "tx-1" 1000) Sample.one_pending) !! "tx-1" = None.
Proof. vm_compute. repeat split; reflexivity. Qed.

(** The timeout takes a confirmed entry: every query of [tx-1] answers
    "confirmed", 1000 seconds have elapsed. *)
Lemma sweep_timeout_overrides_witness :
  exists d,
    pending_transactions Sample.one_pending !! "tx-1" = Some d /\
    moved_to_completed
      (_check_pending_transactions default_config
         (Sample.sweep_env (Ok "confirmed") 1000) Sample.one_pending)
      "tx-1" (set_status "timeout" d) /\
    status_of (set_status "timeout" d) = "timeout".
Proof.
  eexists. split; [vm_compute; reflexivity|].
  apply (sweep_timeout_overrides default_config
           (Sample.sweep_env (Ok "confirmed") 1000) Sample.one_pending
           "tx-1" _ (true, false)).
  - vm_compute. reflexivity.
  - reflexivity.
  - reflexivity.
Defined.

(** The sweep treats an entry the same whether or not another pending
    entry [tx_id] is in the ledger. *)
Lemma sweep_other_entries cfg env st tx_id other :
  other ≠ tx_id ->
  let without :=
    {| pending_transactions := delete tx_id (pending_transactions st);
       completed_transactions := completed_transactions st |} in
  pending_transactions (_check_pending_transactions cfg env st) !! other =
    pending_transactions (_check_pending_transactions cfg env without) !! other /\
  completed_transactions (_check_pending_transactions cfg env st) !! other =
    completed_transactions (_check_pending_transactions cfg env without) !! other.
Proof.
  intros Hne without.
  pose proof (sweep_lookup cfg env st other) as H.
  pose proof (sweep_lookup cfg env without other) as H'.
  simpl in H, H'. rewrite lookup_delete_ne in H' by done.
  destruct (pending_transactions st !! other) as [d|].
  - destruct (check_entry cfg env other d) as [d' [|x ids]];
      destruct H as [-> ->], H' as [-> ->]; done.
  - destruct H as [-> ->], H' as [-> ->]; done.
Qed.

(** C9: when the status queries of one pending entry raise, the sweep
    returns all the same; that entry stays in the pending partition as it
    was, and every other entry whose queries return is judged and moved
    (or kept) exactly as its own answers and clock say, as in a sweep of
    the ledger without the faulted entry. *)
Theorem sweep_isolates_faults cfg env st tx_id d e :
  pending_transactions st !! tx_id = Some d ->
  check_hashes env tx_id 0 (transaction_results d) true = Raise e ->
  left_pending st (_check_pending_transactions cfg env st) tx_id d /\
  (forall other d' verdict,
     other ≠ tx_id ->
     pending_transactions st !! other = Some d' ->
     check_hashes env other 0 (transaction_results d') true = Ok verdict ->
     processed_normally cfg env st (_check_pending_transactions cfg env st)
                        other d' verdict) /\
  (forall other,
     other ≠ tx_id ->
     pending_transactions (_check_pending_transactions cfg env st) !! other =
       pending_transactions
         (_check_pending_transactions cfg env
            {| pending_transactions := delete tx_id (pending_transactions st);
               completed_transactions := completed_transactions st |}) !! other /\
     completed_transactions (_check_pending_transactions cfg env st) !! other =
       completed_transactions
         (_check_pending_transactions cfg env
            {| pending_transactions := delete tx_id (pending_transactions st);
               completed_transactions := completed_transactions st |}) !! other).
Proof.
  intros Hd Hfault. split; [|split].
  - pose proof (sweep_lookup cfg env st tx_id) as H. simpl in H.
    rewrite Hd in H. unfold check_entry in H. rewrite Hfault in H. exact H.
  - intros other d' verdict _ Hd' Hv.
    pose proof (sweep_lookup cfg env st other) as H. simpl in H.
    rewrite Hd' in H. unfold check_entry in H. rewrite Hv in H.
    unfold processed_normally.
    destruct (judge cfg env other d' verdict) as [d2 [|x ids]]; exact H.
  - intros other Hne. by apply sweep_other_entries.
Qed.

(** On the ledger with the entries [tx-1] and [tx-2], the queries of
    [tx-1] raise and those of [tx-2] answer "confirmed". *)
Lemma sweep_isolates_faults_witness :
  exists d,
    pending_transactions Sample.two_pending !! "tx-1" = Some d /\
    left_pending Sample.two_pending
      (_check_pending_transactions default_config
         (Sample.faulty_env "tx-1" 10) Sample.two_pending) "tx-1" d /\
    (status_of <$>
       completed_transactions
         (_check_pending_transactions default_config
            (Sample.faulty_env "tx-1" 10) Sample.two_pending) !! "tx-2")
    = Some "confirmed".
Proof.
  eexists. split; [vm_compute; reflexivity|]. split.
  - apply (sweep_isolates_faults default_config (Sample.faulty_env "tx-1" 10)
             Sample.two_pending "tx-1" _ "TimeoutError").
    + vm_compute. reflexivity.
    + reflexivity.
  - vm_compute. reflexivity.
Defined.

(** C2 (failing input): the second transfer of [tx-1] was not accepted at
    submission, so its result carries no hash; the first sweep finds the
    only hash confirmed and marks the whole disbursement [confirmed]. *)
Theorem partial_submission_marked_confirmed :
  (transaction_results <$>
     pending_transactions Sample.one_partial !! "tx-1")
  = Some [ {| transaction_hash := Some "h-0xA1" |};
           {| transaction_hash := None |} ] /\
  pending_transactions
    (_check_pending_transactions default_config
       (Sample.sweep_env (Ok "confirmed") 10) Sample.one_partial) !! "tx-1"
  = None /\
  (status_of <$>
     completed_transactions
       (_check_pending_transactions default_config
          (Sample.sweep_env (Ok "confirmed") 10) Sample.one_partial) !! "tx-1")
  = Some "confirmed".
Proof. vm_compute. repeat split; reflexivity. Qed.

(** A result without a hash is skipped by the status loop, whatever the
    flags are. *)
Lemma check_hashes_skips_missing env tx_id i rest all_confirmed :
  check_hashes env tx_id i ({| transaction_hash := None |} :: rest) all_confirmed =
  check_hashes env tx_id (S i) rest all_confirmed.
Proof. reflexivity. Qed.

(** With no hash at all, the loop ends with [all_confirmed] still set:
    a disbursement none of whose transfers was accepted is judged
    confirmed. *)
Lemma check_hashes_no_hash env tx_id i results :
  Forall (fun r => transaction_hash r = None) results ->
  check_hashes env tx_id i results true = Ok (true, false).
Proof.
  intros H. revert i. induction H as [|r rest Hr _ IH]; intros i; simpl.
  - reflexivity.
  - rewrite Hr. apply IH.
Qed.

(** ** Claims about the two partitions *)

Lemma one_pending_reachable :
  reachable default_config Sample.one_pending {["tx-1"]}.
Proof.
  assert (Hids : issued (process_message default_config
                           (Sample.gateway Sample.fire_event "tx-1")
                           Sample.message init).1 ∪ ∅
                 = ({["tx-1"]} : gset string))
    by (simpl; apply (right_id_L ∅ (∪))).
  rewrite <- Hids. apply reach_message; [apply reach_init|].
  unfold fresh_id. apply not_elem_of_empty.
Qed.

Lemma two_pending_reachable :
  reachable default_config Sample.two_pending ({["tx-2"]} ∪ {["tx-1"]}).
Proof.
  assert (Hids : issued (process_message default_config
                           (Sample.gateway Sample.fire_event "tx-2")
                           Sample.message Sample.one_pending).1
                 = ({["tx-2"]} : gset string)) by reflexivity.
  rewrite <- Hids. apply reach_message; [apply one_pending_reachable|].
  unfold fresh_id. simpl. rewrite elem_of_singleton. discriminate.
Qed.

Lemma one_stopped_reachable :
  reachable default_config Sample.one_stopped {["tx-1"]}.
Proof. apply reach_stop, one_pending_reachable. Qed.

(** C4: after any run of complete operations from the empty ledger, the
    pending and the completed partition share no transaction id, the ids
    recorded along the run are exactly those held by one of the two, and a
    further sweep leaves each pending id in exactly one partition. *)
Theorem partitions_disjoint_and_complete cfg st ids :
  reachable cfg st ids ->
  dom (pending_transactions st) ## dom (completed_transactions st) /\
  (forall tx_id,
     tx_id ∈ ids <->
     (tx_id ∈ dom (pending_transactions st) /\
      (tx_id ∉ dom (completed_transactions st))) \/
     ((tx_id ∉ dom (pending_transactions st)) /\
      tx_id ∈ dom (completed_transactions st))) /\
  (forall env tx_id,
     tx_id ∈ dom (pending_transactions st) ->
     (tx_id ∈ dom (pending_transactions (_check_pending_transactions cfg env st)) /\
      (tx_id ∉ dom (completed_transactions (_check_pending_transactions cfg env st)))) \/
     ((tx_id ∉ dom (pending_transactions (_check_pending_transactions cfg env st))) /\
      tx_id ∈ dom (completed_transactions (_check_pending_transactions cfg env st)))).
Proof.
  intros Hreach.
  assert (Hexact : forall st' ids', partition_inv st' ids' ->
            forall tx_id,
              tx_id ∈ ids' <->
              (tx_id ∈ dom (pending_transactions st') /\
               (tx_id ∉ dom (completed_transactions st'))) \/
              ((tx_id ∉ dom (pending_transactions st')) /\
               tx_id ∈ dom (completed_transactions st'))).
  { intros st' ids' [Hdisj <-] tx_id. rewrite elem_of_union. split.
    - intros [Hp|Hc]; [left|right]; split; try done.
      + intros Hc. exact (Hdisj tx_id Hp Hc).
      + intros Hp. exact (Hdisj tx_id Hp Hc).
    - intros [[Hp _]|[_ Hc]]; [by left|by right]. }
  pose proof (reachable_partition_inv cfg st ids Hreach) as Hinv.
  split; [apply Hinv|]. split; [by apply Hexact|].
  intros env tx_id Hp.
  apply (Hexact _ ids (partition_inv_sweep cfg env st ids Hinv)).
  destruct Hinv as [_ <-]. apply elem_of_union. by left.
Qed.

Lemma partitions_disjoint_and_complete_witness :
  dom (pending_transactions Sample.one_stopped)
    ## dom (completed_transactions Sample.one_stopped) /\
  (("tx-1" ∉ dom (pending_transactions Sample.one_stopped)) /\
   "tx-1" ∈ dom (completed_transactions Sample.one_stopped)).
Proof.
  destruct (partitions_disjoint_and_complete default_config Sample.one_stopped
              {["tx-1"]} one_stopped_reachable) as (Hdisj & Hexact & _).
  split; [exact Hdisj|].
  destruct (proj1 (Hexact "tx-1")) as [[Hp _]|H].
  - apply elem_of_singleton. reflexivity.
  - exfalso. revert Hp. simpl. rewrite dom_empty_L. apply not_elem_of_empty.
  - exact H.
Defined.

(** C5: in a reachable ledger with N pending entries, the emergency stop
    reports N stopped transactions, empties the pending partition, grows
    the completed partition by N, and stores every formerly pending entry
    there with status [stopped]. *)
Theorem emergency_stop_moves_all cfg st ids now :
  reachable cfg st ids ->
  (emergency_stop_funding now st).1
    = EmergencyStopActivated (size (pending_transactions st)) now /\
  size (pending_transactions (emergency_stop_funding now st).2) = 0 /\
  size (completed_transactions (emergency_stop_funding now st).2)
    = size (completed_transactions st) + size (pending_transactions st) /\
  (forall tx_id d,
     pending_transactions st !! tx_id = Some d ->
     completed_transactions (emergency_stop_funding now st).2 !! tx_id
       = Some (set_status "stopped" d) /\
     status_of (set_status "stopped" d) = "stopped").
Proof.
  intros Hreach.
  destruct (reachable_partition_inv cfg st ids Hreach) as [Hdisj _].
  split; [reflexivity|]. split; [reflexivity|]. split.
  - rewrite emergency_stop_completed.
    rewrite map_size_disj_union.
    + rewrite map_size_fmap. lia.
    + apply map_disjoint_dom. by rewrite dom_fmap_L.
  - intros tx_id d Hd. split; [|reflexivity].
    rewrite emergency_stop_completed.
    apply lookup_union_Some_l. by rewrite lookup_fmap, Hd.
Qed.

Lemma emergency_stop_moves_all_witness :
  (emergency_stop_funding 7 Sample.two_pending).1
    = EmergencyStopActivated (size (pending_transactions Sample.two_pending)) 7 /\
  size (pending_transactions (emergency_stop_funding 7 Sample.two_pending).2) = 0 /\
  size (completed_transactions (emergency_stop_funding 7 Sample.two_pending).2)
    = size (completed_transactions Sample.two_pending)
      + size (pending_transactions Sample.two_pending).
Proof.
  destruct (emergency_stop_moves_all default_config Sample.two_pending
              ({["tx-2"]} ∪ {["tx-1"]}) 7 two_pending_reachable)
    as (Hout & Hp & Hc & _).
  split; [exact Hout|]. split; [exact Hp|exact Hc].
Defined.

Example two_pending_size : size (pending_transactions Sample.two_pending) = 2.
Proof. reflexivity. Qed.

(** ** Claims about the statistics *)

Lemma count_status_hist c f t d :
  count_status (histogram c f t) d =
    histogram (c + count_in "confirmed" [d]) (f + count_in "failed" [d])
         (t + count_in "timeout" [d]).
Proof.
  unfold count_status, count_in, histogram.
  rewrite !filter_cons, !filter_nil.
  destruct (decide (status_of d = "confirmed")) as [E|E1].
  { rewrite E. rewrite lookup_insert_eq, insert_insert_eq.
    rewrite !decide_False by discriminate. simpl.
    by rewrite Nat.add_1_r, !Nat.add_0_r. }
  destruct (decide (status_of d = "failed")) as [E|E2].
  { rewrite E. rewrite lookup_insert_ne, lookup_insert_eq by discriminate.
    rewrite decide_False by discriminate. simpl.
    rewrite (insert_insert_ne _ "failed" "confirmed") by discriminate.
    rewrite insert_insert_eq.
    by rewrite Nat.add_1_r, !Nat.add_0_r. }
  destruct (decide (status_of d = "timeout")) as [E|E3].
  { rewrite E.
    rewrite lookup_insert_ne, lookup_insert_ne, lookup_insert_eq by discriminate.
    simpl.
    rewrite (insert_insert_ne _ "timeout" "confirmed") by discriminate.
    rewrite (insert_insert_ne _ "timeout" "failed") by discriminate.
    rewrite insert_insert_eq.
    by rewrite Nat.add_1_r, !Nat.add_0_r. }
  rewrite !lookup_insert_ne by done. rewrite lookup_empty. simpl.
  by rewrite !Nat.add_0_r.
Qed.

Lemma count_in_cons s d l : count_in s (d :: l) = count_in s [d] + count_in s l.
Proof.
  unfold count_in. rewrite !filter_cons, filter_nil.
  by destruct (decide (status_of d = s)).
Qed.

Lemma count_status_fold l c f t :
  foldl count_status (histogram c f t) l =
    histogram (c + count_in "confirmed" l) (f + count_in "failed" l)
         (t + count_in "timeout" l).
Proof.
  revert c f t. induction l as [|d l IH]; intros c f t.
  - simpl. unfold count_in. rewrite !filter_nil. simpl. by rewrite !Nat.add_0_r.
  - simpl. rewrite count_status_hist, IH.
    rewrite !(count_in_cons _ d l). by rewrite !Nat.add_assoc.
Qed.

Lemma histogram_total_hist c f t : histogram_total (histogram c f t) = c + f + t.
Proof.
  unfold histogram_total, histogram.
  assert (Hcomm : forall z1 z2 y : nat, z1 + (z2 + y) = z2 + (z1 + y))
    by (intros; lia).
  rewrite map_fold_insert_L; [|intros; apply Hcomm|].
  - rewrite map_fold_insert_L; [|intros; apply Hcomm|].
    + rewrite map_fold_insert_L; [|intros; apply Hcomm|apply lookup_empty].
      rewrite map_fold_empty. lia.
    + rewrite lookup_insert_ne by discriminate. apply lookup_empty.
  - rewrite !lookup_insert_ne by discriminate. apply lookup_empty.
Qed.

(** A list whose statuses are all terminal splits into the four
    counts. *)
Lemma count_terminal l :
  Forall (fun d => terminal (status_of d)) l ->
  count_in "confirmed" l + count_in "failed" l + count_in "timeout" l
    + count_in "stopped" l = length l.
Proof.
  induction 1 as [|d l Hd _ IH]; [done|].
  rewrite !(count_in_cons _ d l). simpl. rewrite <- IH.
  assert (count_in "confirmed" [d] + count_in "failed" [d] + count_in "timeout" [d]
          + count_in "stopped" [d] = 1); [|lia].
  unfold count_in. rewrite !filter_cons, !filter_nil.
  destruct Hd as [E|[E|[E|E]]]; rewrite E;
    repeat (rewrite decide_True by reflexivity);
    repeat (rewrite decide_False by discriminate); reflexivity.
Qed.

Lemma status_distribution_spec gw st s :
  get_funding_stats gw st = Some s ->
  status_distribution s =
    histogram (count_with_status "confirmed" (completed_transactions st))
         (count_with_status "failed" (completed_transactions st))
         (count_with_status "timeout" (completed_transactions st)).
Proof.
  unfold get_funding_stats.
  destruct (get_network_info gw); [|done]. destruct (get_balance gw); [|done].
  intros [= <-]. simpl.
  change status_counts_init with (histogram 0 0 0).
  by rewrite count_status_fold.
Qed.


Lemma judge_terminal cfg env tx_id d verdict d' x ids :
  judge cfg env tx_id d verdict = (d', x :: ids) -> terminal (status_of d').
Proof.
  unfold judge, terminal. destruct verdict as [all_confirmed any_failed].
  destruct any_failed, all_confirmed, (Num.ltb _ _); simpl;
    intros [= <- _]; simpl; auto || discriminate.
Qed.

Lemma check_entry_terminal cfg env tx_id d d' x ids :
  check_entry cfg env tx_id d = (d', x :: ids) -> terminal (status_of d').
Proof.
  unfold check_entry. destruct (check_hashes _ _ _ _ _).
  - apply judge_terminal.
  - discriminate.
Qed.

Lemma reachable_completed_terminal cfg st ids :
  reachable cfg st ids -> completed_terminal st.
Proof.
  induction 1 as [|gw message st ids _ IH Hfresh|gw ev st ids _ IH Hfresh
                  |env st ids _ IH|now st ids _ IH]; intros k d.
  - simpl. by rewrite lookup_empty.
  - destruct (process_message_cases cfg gw message st)
      as [[-> _]|(ft & d0 & -> & _)]; apply IH.
  - destruct (distribute_funding_cases cfg gw ev st)
      as [->|(ft & d0 & -> & _)]; apply IH.
  - pose proof (sweep_lookup cfg env st k) as H. simpl in H.
    destruct (pending_transactions st !! k) as [d0|].
    + destruct (check_entry cfg env k d0) as [d' [|x l]] eqn:E;
        destruct H as [_ ->].
      * apply IH.
      * intros [= <-]. by eapply check_entry_terminal.
    + destruct H as [_ ->]. apply IH.
  - rewrite emergency_stop_completed, lookup_union_Some_raw, lookup_fmap.
    intros [Hs|[_ Hc]].
    + destruct (pending_transactions st !! k); [|done].
      injection Hs as <-. unfold terminal. simpl. auto.
    + by eapply IH.
Qed.

(** C8, amended: in every reachable state, when the gateway answers, the
    statistics carry the histogram
    [{'confirmed': c, 'failed': f, 'timeout': t}] where [c], [f], [t] count
    the completed entries with that status; it has no entry for
    [stopped], and its counts sum to the size of the completed partition
    less the number of stopped entries. *)
Theorem histogram_counts_three_statuses cfg st ids gw info balance :
  reachable cfg st ids ->
  get_network_info gw = Ok info ->
  get_balance gw = Ok balance ->
  exists s,
    get_funding_stats gw st = Some s /\
    status_distribution s =
      histogram (count_with_status "confirmed" (completed_transactions st))
                (count_with_status "failed" (completed_transactions st))
                (count_with_status "timeout" (completed_transactions st)) /\
    status_distribution s !! "stopped" = None /\
    histogram_total (status_distribution s)
      + count_with_status "stopped" (completed_transactions st)
    = size (completed_transactions st).
Proof.
  intros Hreach Hinfo Hbal.
  assert (Hsome : is_Some (get_funding_stats gw st)).
  { unfold get_funding_stats. rewrite Hinfo, Hbal. by eexists. }
  destruct Hsome as [s Hs]. exists s. split; [exact Hs|].
  rewrite (status_distribution_spec gw st s Hs). split; [reflexivity|]. split.
  - unfold histogram. by rewrite !lookup_insert_ne.
  - rewrite histogram_total_hist. unfold count_with_status.
    rewrite count_terminal.
    + unfold values. by rewrite length_fmap, length_map_to_list.
    + apply Forall_forall. intros d Hd. unfold values in Hd.
      apply list_elem_of_fmap in Hd as ([k d0] & -> & Hin).
      apply elem_of_map_to_list in Hin.
      by eapply reachable_completed_terminal.
Qed.

Lemma histogram_counts_three_statuses_witness :
  exists s,
    get_funding_stats (Sample.gateway Sample.fire_event "tx-2")
                      Sample.one_stopped = Some s /\
    histogram_total (status_distribution s)
      + count_with_status "stopped" (completed_transactions Sample.one_stopped)
    = size (completed_transactions Sample.one_stopped).
Proof.
  destruct (histogram_counts_three_statuses default_config Sample.one_stopped
              {["tx-1"]} (Sample.gateway Sample.fire_event "tx-2")
              "sepolia" 1%Q one_stopped_reachable eq_refl eq_refl)
    as (s & Hs & _ & _ & Hsum).
  exists s. split; [exact Hs|exact Hsum].
Defined.

(** C8, as stated, fails: the ledger holds one completed entry, stopped by
    an emergency stop; the histogram has no count for [stopped] and its
    counts sum to 0. *)
Lemma stopped_entries_not_counted :
  size (completed_transactions Sample.one_stopped) = 1 /\
  (status_of <$> completed_transactions Sample.one_stopped !! "tx-1")
    = Some "stopped" /\
  exists s,
    get_funding_stats (Sample.gateway Sample.fire_event "tx-2")
                      Sample.one_stopped = Some s /\
    status_distribution s !! "stopped" = None /\
    histogram_total (status_distribution s) = 0.
Proof.
  split; [reflexivity|]. split; [reflexivity|].
  eexists. split; [reflexivity|]. split; reflexivity.
Qed.

(** ** Claims about the funding policy *)

Lemma distribute_funding_accepts cfg gw ev st eid results :
  Num.ltb (_calculate_funding_amount cfg ev) (min_funding_amount cfg) = false ->
  event_id ev = Some eid ->
  accepts gw ev (_calculate_funding_amount cfg ev) results ->
  exists ft d,
    distribute_funding cfg gw ev st =
      (Some ft,
       {| pending_transactions :=
            <[new_transaction_id gw := d]> (pending_transactions st);
          completed_transactions := completed_transactions st |}) /\
    transaction_id ft = new_transaction_id gw /\
    total_amount ft = _calculate_funding_amount cfg ev /\
    status ft = "pending" /\
    funding_transaction d = ft /\
    transaction_results d = results.
Proof.
  intros Hfloor Heid (balance & recipients & ras & Hbal & Hle & Hrec & Hras & Hsend).
  unfold distribute_funding, distribute_body.
  rewrite Hfloor, Hbal. simpl.
  apply NumFacts.ltb_ge in Hle. rewrite Hle, Hrec. simpl.
  rewrite Hras. simpl. rewrite Hsend. simpl. rewrite Heid. simpl.
  eexists _, _. split; [reflexivity|]. simpl. auto.
Qed.

Lemma calculate_below_floor cfg ev r :
  raw_amount cfg ev = Ok r ->
  (r < min_funding_amount cfg)%Q ->
  (min_funding_amount cfg <= max_funding_amount cfg)%Q ->
  _calculate_funding_amount cfg ev = Num.round6 (min_funding_amount cfg).
Proof.
  intros Hraw Hlt Hle. unfold _calculate_funding_amount, calculate_body.
  rewrite Hraw. simpl. rewrite (NumFacts.py_max_below _ _ Hlt).
  apply NumFacts.round6_comp. by apply NumFacts.py_min_above.
Qed.

(** C1, amended: when the raw policy amount is below [min_amount] (with
    [min_amount <= max_amount] and [min_amount] a multiple of 10^-6), the
    calculation raises the amount to [min_amount] and the funding
    operation does not reject the event: with a gateway that accepts, a
    disbursement of exactly [min_amount] is created and recorded as
    pending. *)
Theorem floor_inflates_small_amounts cfg gw ev st r eid results :
  raw_amount cfg ev = Ok r ->
  (r < min_funding_amount cfg)%Q ->
  (min_funding_amount cfg <= max_funding_amount cfg)%Q ->
  (Num.round6 (min_funding_amount cfg) == min_funding_amount cfg)%Q ->
  event_id ev = Some eid ->
  accepts gw ev (_calculate_funding_amount cfg ev) results ->
  (_calculate_funding_amount cfg ev == min_funding_amount cfg)%Q /\
  exists ft d,
    distribute_funding cfg gw ev st =
      (Some ft,
       {| pending_transactions :=
            <[new_transaction_id gw := d]> (pending_transactions st);
          completed_transactions := completed_transactions st |}) /\
    (total_amount ft == min_funding_amount cfg)%Q /\
    funding_transaction d = ft.
Proof.
  intros Hraw Hlt Hle Hgrid Heid Hacc.
  assert (Hcalc : (_calculate_funding_amount cfg ev == min_funding_amount cfg)%Q)
    by (by rewrite (calculate_below_floor cfg ev r)).
  split; [exact Hcalc|].
  destruct (distribute_funding_accepts cfg gw ev st eid results)
    as (ft & d & Hrun & _ & Hamount & _ & Hd & _); [|done|done|].
  - apply NumFacts.ltb_ge. rewrite Hcalc. apply Qle_refl.
  - exists ft, d. split; [exact Hrun|]. split; [by rewrite Hamount|exact Hd].
Qed.

Lemma sample_gateway_accepts cfg ev tx_id dt :
  original_event ev = Some {| disaster_type := Some dt |} ->
  (_calculate_funding_amount cfg ev <= 1)%Q ->
  accepts (Sample.gateway ev tx_id) ev (_calculate_funding_amount cfg ev)
    [ {| transaction_hash := Some "h-0xA1" |};
      {| transaction_hash := Some "h-0xB2" |} ].
Proof.
  intros Hoe Hle. unfold accepts, _get_recipients. rewrite Hoe. simpl.
  eexists _, _, _. split; [reflexivity|]. split; [exact Hle|].
  split; [reflexivity|]. split; reflexivity.
Qed.

Lemma floor_inflates_small_amounts_witness :
  (_calculate_funding_amount default_config Sample.fire_event == 1 # 100)%Q /\
  exists ft d,
    distribute_funding default_config
      (Sample.gateway Sample.fire_event "tx-1") Sample.fire_event init =
      (Some ft,
       {| pending_transactions := <["tx-1" := d]> ∅;
          completed_transactions := ∅ |}) /\
    (total_amount ft == 1 # 100)%Q /\
    funding_transaction d = ft.
Proof.
  apply (floor_inflates_small_amounts default_config
           (Sample.gateway Sample.fire_event "tx-1") Sample.fire_event init
           ((1 # 100) * (80 / 100) * Num.py_min 2 (100 / 1000) * 1)%Q "evt-1"
           [ {| transaction_hash := Some "h-0xA1" |};
             {| transaction_hash := Some "h-0xB2" |} ]).
  - reflexivity.
  - reflexivity.
  - discriminate.
  - reflexivity.
  - reflexivity.
  - apply (sample_gateway_accepts default_config Sample.fire_event "tx-1"
             (PyStr "fire")); [reflexivity|discriminate].
Defined.

(** C1, as stated, fails on its own example: the raw amount of the fire
    event is 0.0008, below the minimum 0.01, and the event is funded with
    0.01. *)
Lemma fire_event_funded_at_floor :
  (exists r,
     raw_amount default_config Sample.fire_event = Ok r /\
     (r == 8 # 10000)%Q /\ (r < min_funding_amount default_config)%Q) /\
  (exists ft,
     (distribute_funding default_config
        (Sample.gateway Sample.fire_event "tx-1") Sample.fire_event init).1
       = Some ft /\
     (total_amount ft == 1 # 100)%Q) /\
  status_tag
    (process_message default_config
       (Sample.gateway Sample.fire_event "tx-1") Sample.message init).1
    = "funding_initiated" /\
  is_Some
    (pending_transactions
       (process_message default_config
          (Sample.gateway Sample.fire_event "tx-1") Sample.message init).2
       !! "tx-1").
Proof.
  split; [|split; [|split]].
  - eexists. split; [reflexivity|]. split; reflexivity.
  - eexists. split; [reflexivity|]. reflexivity.
  - reflexivity.
  - vm_compute. eexists. reflexivity.
Qed.

(** C7 (failing input): with min = 0.000001 and max = 0.0000056 the
    casualty event is clamped to 0.0000056 and then rounded to 0.000006:
    the disbursement is created above the maximum. *)
Theorem rounding_exceeds_ceiling :
  exists ft,
    (distribute_funding Sample.fine_config
       (Sample.gateway Sample.casualty_event "tx-1")
       Sample.casualty_event init).1 = Some ft /\
    (total_amount ft == 6 # 1000000)%Q /\
    (max_funding_amount Sample.fine_config < total_amount ft)%Q.
Proof. eexists. split; [reflexivity|]. split; reflexivity. Qed.

(** The end-to-end scenario of the spec: min = 0.000001, max = 0.000005,
    raw amount 0.03, disbursement at exactly 0.000005. *)
Lemma casualty_event_funded_at_ceiling :
  (exists r,
     raw_amount Sample.small_config Sample.casualty_event = Ok r /\
     (r == 3 # 100)%Q) /\
  exists ft,
    (distribute_funding Sample.small_config
       (Sample.gateway Sample.casualty_event "tx-1")
       Sample.casualty_event init).1 = Some ft /\
    (total_amount ft == 5 # 1000000)%Q.
Proof.
  split.
  - eexists. split; reflexivity.
  - eexists. split; reflexivity.
Qed.

(** A created disbursement is never below the minimum. *)
Lemma created_amount_ge_min cfg gw ev st ft :
  (distribute_funding cfg gw ev st).1 = Some ft ->
  (min_funding_amount cfg <= total_amount ft)%Q.
Proof.
  unfold distribute_funding, distribute_body.
  destruct (Num.ltb _ (min_funding_amount cfg)) eqn:Hfloor; [done|].
  apply NumFacts.ltb_ge in Hfloor.
  destruct (get_balance gw) as [balance|]; simpl; [|done].
  destruct (Num.ltb balance _); [done|].
  destruct (_get_recipients gw ev) as [recipients|]; simpl; [|done].
  destruct (calculate_recipient_amounts gw _ recipients) as [ras|]; simpl; [|done].
  destruct (send_multiple_transactions gw ras) as [results|]; simpl; [|done].
  destruct (event_id ev) as [eid|]; simpl; [|done].
  by intros [= <-].
Qed.

(** With [min <= max] and a maximum that is a multiple of 10^-6, the
    calculated amount stays under the maximum. *)
Lemma calculate_le_max_on_grid cfg ev :
  (min_funding_amount cfg <= max_funding_amount cfg)%Q ->
  (Num.round6 (max_funding_amount cfg) == max_funding_amount cfg)%Q ->
  (_calculate_funding_amount cfg ev <= max_funding_amount cfg)%Q.
Proof.
  intros Hle Hgrid. unfold _calculate_funding_amount, calculate_body.
  destruct (raw_amount cfg ev) as [r|]; simpl; [|exact Hle].
  rewrite <- Hgrid at 2. apply NumFacts.round6_mono, NumFacts.py_min_le_l.
Qed.

Lemma created_amount_le_max_on_grid cfg gw ev st ft :
  (min_funding_amount cfg <= max_funding_amount cfg)%Q ->
  (Num.round6 (max_funding_amount cfg) == max_funding_amount cfg)%Q ->
  (distribute_funding cfg gw ev st).1 = Some ft ->
  (total_amount ft <= max_funding_amount cfg)%Q.
Proof.
  intros Hle Hgrid.
  destruct (distribute_funding_cases cfg gw ev st)
    as [->|(ft' & d & -> & _ & _ & _ & Hamount & _)]; [done|].
  simpl. intros [= <-]. rewrite Hamount. by apply calculate_le_max_on_grid.
Qed.

(** C10: the calculation returns a number for every event: it is the
    value of the guarded block, or [min_funding_amount] when the block
    raises. An absent [funding_recommendation], [verification_score] or
    [human_impact_estimate] counts as [min_funding_amount], 80 and 100.
    When the block raises, the returned amount is [min_funding_amount],
    the floor check of the funding operation lets it pass, and with a
    gateway that accepts a disbursement of that amount is created. *)
Theorem calculation_total_with_defaults cfg ev :
  ((exists a, calculate_body cfg ev = Ok a /\ _calculate_funding_amount cfg ev = a) \/
   (exists e, calculate_body cfg ev = Raise e /\
              _calculate_funding_amount cfg ev = min_funding_amount cfg)) /\
  (funding_recommendation ev = None ->
   _calculate_funding_amount cfg ev =
   _calculate_funding_amount cfg
     (with_funding_recommendation (Some (PyNum (min_funding_amount cfg))) ev)) /\
  (verification_score ev = None ->
   _calculate_funding_amount cfg ev =
   _calculate_funding_amount cfg (with_verification_score (Some (PyNum 80)) ev)) /\
  (human_impact_estimate ev = None ->
   _calculate_funding_amount cfg ev =
   _calculate_funding_amount cfg
     (with_human_impact_estimate (Some (PyNum 100)) ev)) /\
  (forall e,
     calculate_body cfg ev = Raise e ->
     _calculate_funding_amount cfg ev = min_funding_amount cfg /\
     (min_funding_amount cfg <= _calculate_funding_amount cfg ev)%Q /\
     Num.ltb (_calculate_funding_amount cfg ev) (min_funding_amount cfg) = false /\
     forall gw st eid results,
       event_id ev = Some eid ->
       accepts gw ev (min_funding_amount cfg) results ->
       exists ft d,
         distribute_funding cfg gw ev st =
           (Some ft,
            {| pending_transactions :=
                 <[new_transaction_id gw := d]> (pending_transactions st);
               completed_transactions := completed_transactions st |}) /\
         total_amount ft = min_funding_amount cfg /\
         funding_transaction d = ft).
Proof.
  split; [|split; [|split; [|split]]].
  - unfold _calculate_funding_amount.
    destruct (calculate_body cfg ev) as [a|e]; [left|right]; eauto.
  - intros H. unfold _calculate_funding_amount, calculate_body, raw_amount.
    simpl. by rewrite H.
  - intros H. unfold _calculate_funding_amount, calculate_body, raw_amount.
    simpl. by rewrite H.
  - intros H. unfold _calculate_funding_amount, calculate_body, raw_amount.
    simpl. by rewrite H.
  - intros e He.
    assert (Hmin : _calculate_funding_amount cfg ev = min_funding_amount cfg)
      by (unfold _calculate_funding_amount; by rewrite He).
    rewrite Hmin. split; [reflexivity|]. split; [apply Qle_refl|].
    split; [apply NumFacts.ltb_irrefl|].
    intros gw st eid results Heid Hacc.
    destruct (distribute_funding_accepts cfg gw ev st eid results)
      as (ft & d & Hrun & _ & Hamount & _ & Hd & _).
    + rewrite Hmin. apply NumFacts.ltb_irrefl.
    + exact Heid.
    + by rewrite Hmin.
    + exists ft, d. rewrite Hamount, Hmin in *. auto.
Qed.

(** The recommendation of the malformed event is a string: the block
    raises [TypeError], the amount is the minimum 0.01, and the event is
    funded. *)
Lemma calculation_total_with_defaults_witness :
  calculate_body default_config Sample.malformed_event
    = Raise "TypeError: unsupported operand type(s): 'str'" /\
  _calculate_funding_amount default_config Sample.malformed_event
    = min_funding_amount default_config /\
  exists ft d,
    distribute_funding default_config
      (Sample.gateway Sample.malformed_event "tx-1")
      Sample.malformed_event init =
      (Some ft,
       {| pending_transactions := <["tx-1" := d]> ∅;
          completed_transactions := ∅ |}) /\
    total_amount ft = min_funding_amount default_config /\
    funding_transaction d = ft.
Proof.
  destruct (calculation_total_with_defaults default_config
              Sample.malformed_event) as (_ & _ & _ & _ & Hfault).
  destruct (Hfault "TypeError: unsupported operand type(s): 'str'" eq_refl)
    as (Hmin & _ & _ & Hfund).
  split; [reflexivity|]. split; [exact Hmin|].
  apply (Hfund (Sample.gateway Sample.malformed_event "tx-1") init "evt-1"
               [ {| transaction_hash := Some "h-0xA1" |};
                 {| transaction_hash := Some "h-0xB2" |} ]).
  - reflexivity.
  - apply (sample_gateway_accepts default_config Sample.malformed_event "tx-1"
             (PyStr "fire")); [reflexivity|discriminate].
Defined.

(** ** Claims about message processing *)

(** C6, amended: [process_message] returns a tagged outcome for every
    message and never raises. A fault of the event parser gives the
    outcome [error] with the description of the fault. A fault raised
    inside the funding operation (balance check, recipient lookup, split,
    transfer submission) is caught there and gives [funding_failed], not
    [error]. A fault of the policy computation is caught inside the
    calculation, which answers [min_funding_amount]. Whenever the outcome
    is not [funding_initiated], the ledger is unchanged. *)
Theorem process_message_fault_outcomes cfg gw message st payload :
  verified_event message = Some payload ->
  (forall e,
     from_dict gw payload = Raise e ->
     process_message cfg gw message st = (Error e, st) /\
     status_tag (process_message cfg gw message st).1 = "error") /\
  (forall ev e eid,
     from_dict gw payload = Ok ev ->
     distribute_body cfg gw ev st = Raise e ->
     event_id ev = Some eid ->
     process_message cfg gw message st = (FundingFailed, st)) /\
  (forall ev e,
     from_dict gw payload = Ok ev ->
     calculate_body cfg ev = Raise e ->
     _calculate_funding_amount cfg ev = min_funding_amount cfg) /\
  (status_tag (process_message cfg gw message st).1 ≠ "funding_initiated" ->
   (process_message cfg gw message st).2 = st).
Proof.
  intros Hmsg. split; [|split; [|split]].
  - intros e He. unfold process_message. rewrite Hmsg, He. done.
  - intros ev e eid Hev Hbody Heid. unfold process_message.
    rewrite Hmsg, Hev. unfold distribute_funding. rewrite Hbody, Heid. done.
  - intros ev e _ Hbody. unfold _calculate_funding_amount. by rewrite Hbody.
  - destruct (process_message_cases cfg gw message st)
      as [[Hst _]|(ft & d & -> & _)]; [done|].
    simpl. done.
Qed.

Lemma process_message_fault_outcomes_witness :
  process_message default_config (Sample.garbled_gateway "tx-1")
                  Sample.message init
    = (Error "KeyError: 'event_id'", init) /\
  status_tag (process_message default_config (Sample.garbled_gateway "tx-1")
                              Sample.message init).1 = "error".
Proof.
  destruct (process_message_fault_outcomes default_config
              (Sample.garbled_gateway "tx-1") Sample.message init []
              eq_refl) as (Hparse & _).
  apply Hparse. reflexivity.
Defined.

(** C6, as stated, fails: the balance query raises while the fire event is
    processed; the outcome is [funding_failed], not [error]. *)
Lemma balance_fault_reported_as_funding_failed :
  get_balance (Sample.offline_gateway Sample.fire_event "tx-1")
    = Raise "ConnectionError" /\
  process_message default_config
    (Sample.offline_gateway Sample.fire_event "tx-1") Sample.message init
    = (FundingFailed, init) /\
  status_tag
    (process_message default_config
       (Sample.offline_gateway Sample.fire_event "tx-1") Sample.message init).1
    ≠ "error".
Proof. split; [reflexivity|]. split; [reflexivity|discriminate]. Qed.
